(** * DenseVectorProxy: capability-gated forwarding onto a dense vector

    A shallow embedding of [blaze/math/proxy/DenseVectorProxy.h].

    [DenseVectorProxy<PT,VT>] is a stateless CRTP backend: every member
    function down-casts [*this] to the derived proxy [PT] (the [~] operator),
    asks it [isRestricted()] and/or [get()], and forwards to the represented
    dense vector [VT].  Neither [PT] nor [VT] is defined in the header, so the
    member functions are embedded as programs over the calls they make to
    those two collaborators; an interpreter runs such a program against any
    implementation of the collaborators and records the calls it makes. *)

From Stdlib Require Import String NArith ZArith List Lia.
From stdpp Require Import base option list.

Local Open Scope string_scope.

(** ** Exceptions and results *)

(** The exceptions of [<stdexcept>] that occur in the header or that a
    represented vector is documented to raise. *)
Inductive exception : Type :=
| invalid_argument (what : string)
| out_of_range (what : string)
| bad_alloc.

(** A call either returns a value or leaves by an exception. *)
Inductive result (A : Type) : Type :=
| Returned (a : A)
| Thrown (e : exception).
Arguments Returned {A} a.
Arguments Thrown {A} e.

Definition thrown {A} (r : result A) : option exception :=
  match r with
  | Returned _ => None
  | Thrown e => Some e
  end.

(** [size_t] values; the proxy passes them on untouched. *)
Definition size_t : Type := N.

(** ** The template parameters

    [PT] is the derived proxy, [VT] the represented vector as [get()] hands it
    out (an lvalue, [VT&]); the remaining members are the nested typedefs the
    class re-exports from [VT], and [Other] is the scalar type of [scale]. *)
Class VectorTypes : Type := {
  PT : Type;
  VT : Type;
  ElementType : Type;
  Reference : Type;
  Pointer : Type;
  Iterator : Type;
  ConstIterator : Type;
  Other : Type
}.

Section Calls.
Context {T : VectorTypes}.

(** The calls the header makes on its collaborators.  [isRestricted] and
    [get] are members of the derived proxy; the [vt_] calls are the members
    of the represented vector ([vt_reset] and [vt_clear] stand for the
    [blaze::reset] and [blaze::clear] shims applied to it).  The last two
    are the uses a caller makes of a [Reference] it was handed. *)
Inductive call : Type :=
| isRestricted (p : PT)
| get (p : PT)
| vt_subscript (v : VT) (index : size_t)
| vt_data (v : VT)
| vt_begin (v : VT)
| vt_cbegin (v : VT)
| vt_end (v : VT)
| vt_cend (v : VT)
| vt_size (v : VT)
| vt_capacity (v : VT)
| vt_nonZeros (v : VT)
| vt_reset (v : VT)
| vt_clear (v : VT)
| vt_resize (v : VT) (n : size_t) (preserve : bool)
| vt_extend (v : VT) (n : size_t) (preserve : bool)
| vt_reserve (v : VT) (n : size_t)
| vt_scale (v : VT) (scalar : Other)
| ref_assign (r : Reference) (x : ElementType)
| ref_value (r : Reference).

Definition ret_type (c : call) : Type :=
  match c with
  | isRestricted _ => bool
  | get _ => VT
  | vt_subscript _ _ => Reference
  | vt_data _ => Pointer
  | vt_begin _ | vt_end _ => Iterator
  | vt_cbegin _ | vt_cend _ => ConstIterator
  | vt_size _ | vt_capacity _ | vt_nonZeros _ => size_t
  | vt_reset _ | vt_clear _ => unit
  | vt_resize _ _ _ | vt_extend _ _ _ | vt_reserve _ _ => unit
  | vt_scale _ _ => unit
  | ref_assign _ _ => unit
  | ref_value _ => ElementType
  end.

Definition is_isRestricted (c : call) : bool :=
  match c with isRestricted _ => true | _ => false end.

Definition on_proxy (c : call) : bool :=
  match c with isRestricted _ | get _ => true | _ => false end.

(** Calls that reach the represented vector (or a reference into it). *)
Definition on_representee (c : call) : bool := negb (on_proxy c).

(** ** Programs *)

(** A member function body: it returns, throws, or makes a call and goes on
    with the value the call returned. *)
Inductive Prog (R : Type) : Type :=
| Ret (r : R)
| Throw (e : exception)
| Do (c : call) (k : ret_type c → Prog R).
Arguments Ret {R} r.
Arguments Throw {R} e.
Arguments Do {R} c k.

Definition perform (c : call) : Prog (ret_type c) := Do c Ret.

Fixpoint bind {A B} (m : Prog A) (f : A → Prog B) : Prog B :=
  match m with
  | Ret a => f a
  | Throw e => Throw e
  | Do c k => Do c (λ x, bind (k x) f)
  end.

#[export] Instance Prog_ret : MRet Prog := λ _ a, Ret a.
#[export] Instance Prog_bind : MBind Prog := λ _ _ f m, bind m f.

(** ** Running a program *)

(** One record per call made: the call and how it ended. *)
Record event : Type := Event {
  ev_call : call;
  ev_answer : result (ret_type ev_call)
}.

(** An implementation of the collaborators over a world [W]: every call
    may read and change the world and either returns or throws. *)
Definition handler (W : Type) : Type := ∀ c : call, W → result (ret_type c) * W.

Record outcome (W R : Type) : Type := Outcome {
  value : result R;
  world : W;
  calls : list event
}.
Arguments Outcome {W R} value world calls.
Arguments value {W R} o.
Arguments world {W R} o.
Arguments calls {W R} o.

Definition after {W R} (ev : event) (o : outcome W R) : outcome W R :=
  Outcome (value o) (world o) (ev :: calls o).

Fixpoint run {W R} (h : handler W) (p : Prog R) (w : W) : outcome W R :=
  match p with
  | Ret r => Outcome (Returned r) w []
  | Throw e => Outcome (Thrown e) w []
  | Do c k =>
      match h c w with
      | (Returned x, w') => after (Event c (Returned x)) (run h (k x) w')
      | (Thrown e, w') => Outcome (Thrown e) w' [Event c (Thrown e)]
      end
  end.

End Calls.

Arguments Ret {_ R} r.
Arguments Throw {_ R} e.
Arguments Do {_ R} c k.
Arguments Outcome {_ W R} value world calls.
Arguments value {_ W R} o.
Arguments world {_ W R} o.
Arguments calls {_ W R} o.

(** ** The member functions of [DenseVectorProxy<PT,VT>]

    [this] is the derived proxy that [~*this] yields.  The operator [[]] is
    [subscript]; [end] is spelled [end_]. *)
Module DenseVectorProxy.
Section Members.
Context {T : VectorTypes}.

Definition subscript (this : PT) (index : size_t) : Prog Reference :=
  restricted ← perform (isRestricted this);
  if (restricted : bool)
  then Throw (invalid_argument "Invalid access to restricted element")
  else v ← perform (get this); perform (vt_subscript v index).

Definition data (this : PT) : Prog Pointer :=
  restricted ← perform (isRestricted this);
  if (restricted : bool)
  then Throw (invalid_argument "Invalid access to restricted element")
  else v ← perform (get this); perform (vt_data v).

Definition begin (this : PT) : Prog Iterator :=
  restricted ← perform (isRestricted this);
  if (restricted : bool)
  then Throw (invalid_argument "Invalid access to restricted element")
  else v ← perform (get this); perform (vt_begin v).

Definition cbegin (this : PT) : Prog ConstIterator :=
  v ← perform (get this); perform (vt_cbegin v).

Definition end_ (this : PT) : Prog Iterator :=
  restricted ← perform (isRestricted this);
  if (restricted : bool)
  then Throw (invalid_argument "Invalid access to restricted element")
  else v ← perform (get this); perform (vt_end v).

Definition cend (this : PT) : Prog ConstIterator :=
  v ← perform (get this); perform (vt_cend v).

Definition size (this : PT) : Prog size_t :=
  v ← perform (get this); perform (vt_size v).

Definition capacity (this : PT) : Prog size_t :=
  v ← perform (get this); perform (vt_capacity v).

Definition nonZeros (this : PT) : Prog size_t :=
  v ← perform (get this); perform (vt_nonZeros v).

Definition reset (this : PT) : Prog unit :=
  v ← perform (get this); perform (vt_reset v).

Definition clear (this : PT) : Prog unit :=
  v ← perform (get this); perform (vt_clear v).

Definition resize (this : PT) (n : size_t) (preserve : bool) : Prog unit :=
  restricted ← perform (isRestricted this);
  if (restricted : bool)
  then Throw (invalid_argument "Invalid access to restricted element")
  else v ← perform (get this); perform (vt_resize v n preserve).

Definition extend (this : PT) (n : size_t) (preserve : bool) : Prog unit :=
  restricted ← perform (isRestricted this);
  if (restricted : bool)
  then Throw (invalid_argument "Invalid access to restricted element")
  else v ← perform (get this); perform (vt_extend v n preserve).

Definition reserve (this : PT) (n : size_t) : Prog unit :=
  restricted ← perform (isRestricted this);
  if (restricted : bool)
  then Throw (invalid_argument "Invalid access to restricted element")
  else v ← perform (get this); perform (vt_reserve v n).

Definition scale (this : PT) (scalar : Other) : Prog unit :=
  restricted ← perform (isRestricted this);
  if (restricted : bool)
  then Throw (invalid_argument "Invalid access to restricted element")
  else v ← perform (get this); perform (vt_scale v scalar).

(** The default arguments of the in-class declarations
    [resize( size_t n, bool preserve=true )] and
    [extend( size_t n, bool preserve=true )]. *)
Definition resize_preserve_default : bool := true.
Definition extend_preserve_default : bool := true.

(** The call expressions [proxy.resize( n )] / [proxy.resize( n, p )] and
    likewise for [extend]: an omitted trailing argument is taken from the
    declaration. *)
Definition resize_call (this : PT) (n : size_t) (preserve : option bool) : Prog unit :=
  resize this n (default resize_preserve_default preserve).

Definition extend_call (this : PT) (n : size_t) (preserve : option bool) : Prog unit :=
  extend this n (default extend_preserve_default preserve).

End Members.
End DenseVectorProxy.

(** ** The global functions of namespace [blaze] declared for the proxy *)
Module blaze.
Section GlobalFunctions.
Context {T : VectorTypes}.

Definition begin (proxy : PT) : Prog Iterator := DenseVectorProxy.begin proxy.
Definition cbegin (proxy : PT) : Prog ConstIterator := DenseVectorProxy.cbegin proxy.
Definition end_ (proxy : PT) : Prog Iterator := DenseVectorProxy.end_ proxy.
Definition cend (proxy : PT) : Prog ConstIterator := DenseVectorProxy.cend proxy.
Definition size (proxy : PT) : Prog size_t := DenseVectorProxy.size proxy.
Definition capacity (proxy : PT) : Prog size_t := DenseVectorProxy.capacity proxy.
Definition nonZeros (proxy : PT) : Prog size_t := DenseVectorProxy.nonZeros proxy.
Definition reset (proxy : PT) : Prog unit := DenseVectorProxy.reset proxy.
Definition clear (proxy : PT) : Prog unit := DenseVectorProxy.clear proxy.

End GlobalFunctions.
End blaze.

(** ** The operation surface

    The operations of the proxy with their arguments, so that statements can
    range over "every operation". *)
Section Surface.
Context {T : VectorTypes}.

Inductive member : Type :=
| m_subscript (index : size_t)
| m_data
| m_begin
| m_cbegin
| m_end
| m_cend
| m_size
| m_capacity
| m_nonZeros
| m_reset
| m_clear
| m_resize (n : size_t) (preserve : bool)
| m_extend (n : size_t) (preserve : bool)
| m_reserve (n : size_t)
| m_scale (scalar : Other).

Definition member_type (m : member) : Type :=
  match m with
  | m_subscript _ => Reference
  | m_data => Pointer
  | m_begin | m_end => Iterator
  | m_cbegin | m_cend => ConstIterator
  | m_size | m_capacity | m_nonZeros => size_t
  | m_reset | m_clear => unit
  | m_resize _ _ | m_extend _ _ | m_reserve _ | m_scale _ => unit
  end.

(** [proxy.member( args... )] *)
Definition invoke (m : member) (this : PT) : Prog (member_type m) :=
  match m return Prog (member_type m) with
  | m_subscript index => DenseVectorProxy.subscript this index
  | m_data => DenseVectorProxy.data this
  | m_begin => DenseVectorProxy.begin this
  | m_cbegin => DenseVectorProxy.cbegin this
  | m_end => DenseVectorProxy.end_ this
  | m_cend => DenseVectorProxy.cend this
  | m_size => DenseVectorProxy.size this
  | m_capacity => DenseVectorProxy.capacity this
  | m_nonZeros => DenseVectorProxy.nonZeros this
  | m_reset => DenseVectorProxy.reset this
  | m_clear => DenseVectorProxy.clear this
  | m_resize n preserve => DenseVectorProxy.resize this n preserve
  | m_extend n preserve => DenseVectorProxy.extend this n preserve
  | m_reserve n => DenseVectorProxy.reserve this n
  | m_scale scalar => DenseVectorProxy.scale this scalar
  end.

(** The same operation, with the same arguments, invoked on the
    represented vector itself. *)
Definition direct (m : member) (v : VT) : Prog (member_type m) :=
  match m return Prog (member_type m) with
  | m_subscript index => perform (vt_subscript v index)
  | m_data => perform (vt_data v)
  | m_begin => perform (vt_begin v)
  | m_cbegin => perform (vt_cbegin v)
  | m_end => perform (vt_end v)
  | m_cend => perform (vt_cend v)
  | m_size => perform (vt_size v)
  | m_capacity => perform (vt_capacity v)
  | m_nonZeros => perform (vt_nonZeros v)
  | m_reset => perform (vt_reset v)
  | m_clear => perform (vt_clear v)
  | m_resize n preserve => perform (vt_resize v n preserve)
  | m_extend n preserve => perform (vt_extend v n preserve)
  | m_reserve n => perform (vt_reserve v n)
  | m_scale scalar => perform (vt_scale v scalar)
  end.

(** The gated operations as the specification lists them: element access,
    [data], mutable [begin]/[end], [resize], [extend], [reserve], [scale]. *)
Definition gated (m : member) : bool :=
  match m with
  | m_subscript _ | m_data | m_begin | m_end => true
  | m_resize _ _ | m_extend _ _ | m_reserve _ | m_scale _ => true
  | m_cbegin | m_cend | m_size | m_capacity | m_nonZeros => false
  | m_reset | m_clear => false
  end.

(** The global function of the same name, where the header defines one. *)
Definition free_function (m : member) : option (PT → Prog (member_type m)) :=
  match m return option (PT → Prog (member_type m)) with
  | m_begin => Some blaze.begin
  | m_cbegin => Some blaze.cbegin
  | m_end => Some blaze.end_
  | m_cend => Some blaze.cend
  | m_size => Some blaze.size
  | m_capacity => Some blaze.capacity
  | m_nonZeros => Some blaze.nonZeros
  | m_reset => Some blaze.reset
  | m_clear => Some blaze.clear
  | m_subscript _ | m_data => None
  | m_resize _ _ | m_extend _ _ | m_reserve _ | m_scale _ => None
  end.

(** The nine operations for which the header declares a global function. *)
Definition has_global_function (m : member) : bool :=
  match m with
  | m_begin | m_cbegin | m_end | m_cend => true
  | m_size | m_capacity | m_nonZeros | m_reset | m_clear => true
  | _ => false
  end.

(** The exception every gate throws. *)
Definition AccessRestricted : exception :=
  invalid_argument "Invalid access to restricted element".

(** ** Client code used in the statements *)

(** [proxy[i] = x;] *)
Definition write_through_proxy (proxy : PT) (i : size_t) (x : ElementType) : Prog unit :=
  r ← DenseVectorProxy.subscript proxy i; perform (ref_assign r x).

(** [v[i] = x;] on the represented vector. *)
Definition write_direct (v : VT) (i : size_t) (x : ElementType) : Prog unit :=
  r ← perform (vt_subscript v i); perform (ref_assign r x).

(** Reading [v[i]] on the represented vector. *)
Definition read_direct (v : VT) (i : size_t) : Prog ElementType :=
  r ← perform (vt_subscript v i); perform (ref_value r).

End Surface.

(** ** Vocabulary of the statements *)
Section Vocabulary.
Context {T : VectorTypes} {W : Type}.

(** What plain delegation does: ask the proxy for the vector, then invoke
    the operation on it. *)
Definition forwarded (h : handler W) (m : member) (this : PT) (w : W)
    : outcome W (member_type m) :=
  match h (get this) w with
  | (Returned v, w') => after (Event (get this) (Returned v)) (run h (direct m v) w')
  | (Thrown e, w') => Outcome (Thrown e) w' [Event (get this) (Thrown e)]
  end.

(** Two implementations that differ at most in what [isRestricted] does. *)
Definition same_but_isRestricted (h h' : handler W) : Prop :=
  ∀ (c : call) (w : W), is_isRestricted c = false → h' c w = h c w.

(** The pure queries: [size], [capacity], [nonZeros], [cbegin], [cend]. *)
Definition is_query (m : member) : bool :=
  match m with
  | m_size | m_capacity | m_nonZeros | m_cbegin | m_cend => true
  | _ => false
  end.

(** The number of times a trace evaluates the restriction predicate. *)
Definition isRestricted_count (t : list event) : nat :=
  length (filter (λ ev, is_isRestricted (ev_call ev) = true) t).

(** The exception a run ends with was raised by a call that is not
    [isRestricted]: it is the last call of the trace and that call threw. *)
Definition raised_by_collaborator {R} (o : outcome W R) (e : exception) : Prop :=
  ∃ c : call, is_isRestricted c = false ∧ last (calls o) = Some (Event c (Thrown e)).

(** The contract of a represented vector for element writes: at a valid
    index, what is assigned through the reference is what is read back. *)
Definition stores_assigned_elements (h : handler W) : Prop :=
  ∀ (v : VT) (i n : size_t) (x : ElementType) (w : W),
    fst (h (vt_size v) w) = Returned n → (i < n)%N →
    value (run h (write_direct v i x ≫= λ _, read_direct v i) w) = Returned x.

End Vocabulary.

(** ** A sample represented vector and proxy variant *)

(** Modelled from the spec: the represented vector (the Representee) and the
    concrete proxy variants are external to the header.  The sample is a
    resizable vector of integers with a capacity ([size <= capacity], default
    element 0, bounds-checked element access, allocation failing beyond
    [max_elements]) and a proxy variant whose restriction is a flag kept in
    the world, so that it can change between calls.  It serves to evaluate
    the statements on concrete inputs; the theorems hold for every
    implementation of the two collaborators. *)
Module Sample.

Record DynamicVector : Type := {
  elements : list Z;
  cap : N
}.

(** A proxy names the vector it represents and the flag that restricts it. *)
Record Proxy : Type := {
  target : nat;
  flag : nat
}.

Record World : Type := {
  vectors : list DynamicVector;
  restrictions : list bool
}.

#[export] Instance types : VectorTypes := {|
  PT := Proxy;
  VT := nat;
  ElementType := Z;
  Reference := nat * N;
  Pointer := nat;
  Iterator := nat * N;
  ConstIterator := nat * N;
  Other := Z
|}.

Definition max_elements : N := 2 ^ 61.

Definition length_of (d : DynamicVector) : N := N.of_nat (length (elements d)).

Definition count_nonzero (d : DynamicVector) : N :=
  N.of_nat (length (filter (λ x, x ≠ 0%Z) (elements d))).

Definition resized (n : N) (preserve : bool) (d : DynamicVector) : DynamicVector :=
  {| elements := take (N.to_nat n)
                   ((if preserve then elements d else []) ++ replicate (N.to_nat n) 0%Z);
     cap := N.max (cap d) n |}.

(** Apply a vector operation to the vector stored at [v]. *)
Definition on_vector {A} (v : nat) (w : World)
    (f : DynamicVector → result A * DynamicVector) : result A * World :=
  match vectors w !! v with
  | Some d =>
      let '(r, d') := f d in
      (r, {| vectors := <[v := d']> (vectors w); restrictions := restrictions w |})
  | None => (Thrown (out_of_range "no such vector"), w)
  end.

Definition checked_index {A} (i : N) (d : DynamicVector)
    (f : result A * DynamicVector) : result A * DynamicVector :=
  if (i <? length_of d)%N then f
  else (Thrown (out_of_range "Invalid vector access index"), d).

Definition allocating (n : N) (d : DynamicVector)
    (f : DynamicVector) : result unit * DynamicVector :=
  if (max_elements <? n)%N then (Thrown bad_alloc, d) else (Returned (), f).

(** Modelled from the spec: the operations of the sample vector and of the
    sample proxy variant. *)
Definition handle : handler World := λ c,
  match c return World → result (ret_type c) * World with
  | isRestricted p => λ w, (Returned (default false (restrictions w !! flag p)), w)
  | get p => λ w, (Returned (target p), w)
  | vt_subscript v i => λ w, on_vector v w (λ d, checked_index i d (Returned (v, i), d))
  | vt_data v => λ w, on_vector v w (λ d, (Returned v, d))
  | vt_begin v => λ w, on_vector v w (λ d, (Returned (v, 0%N), d))
  | vt_cbegin v => λ w, on_vector v w (λ d, (Returned (v, 0%N), d))
  | vt_end v => λ w, on_vector v w (λ d, (Returned (v, length_of d), d))
  | vt_cend v => λ w, on_vector v w (λ d, (Returned (v, length_of d), d))
  | vt_size v => λ w, on_vector v w (λ d, (Returned (length_of d), d))
  | vt_capacity v => λ w, on_vector v w (λ d, (Returned (cap d), d))
  | vt_nonZeros v => λ w, on_vector v w (λ d, (Returned (count_nonzero d), d))
  | vt_reset v => λ w, on_vector v w (λ d,
      (Returned (), {| elements := (λ _, 0%Z) <$> elements d; cap := cap d |}))
  | vt_clear v => λ w, on_vector v w (λ d,
      (Returned (), {| elements := []; cap := cap d |}))
  | vt_resize v n preserve => λ w, on_vector v w (λ d,
      allocating n d (resized n preserve d))
  | vt_extend v n preserve => λ w, on_vector v w (λ d,
      let n' := ((length_of d + n) mod 2 ^ 64)%N in
      allocating n' d (resized n' preserve d))
  | vt_reserve v n => λ w, on_vector v w (λ d,
      allocating n d {| elements := elements d; cap := N.max (cap d) n |})
  | vt_scale v s => λ w, on_vector v w (λ d,
      (Returned (), {| elements := (λ x, x * s)%Z <$> elements d; cap := cap d |}))
  | ref_assign (v, i) x => λ w, on_vector v w (λ d,
      checked_index i d
        (Returned (), {| elements := <[N.to_nat i := x]> (elements d); cap := cap d |}))
  | ref_value (v, i) => λ w, on_vector v w (λ d,
      match elements d !! N.to_nat i with
      | Some x => (Returned x, d)
      | None => (Thrown (out_of_range "Invalid vector access index"), d)
      end)
  end.

(** An event outside the proxy that sets a restriction flag. *)
Definition set_restriction (f : nat) (b : bool) (w : World) : World :=
  {| vectors := vectors w; restrictions := <[f := b]> (restrictions w) |}.

(** One vector [[1,2,3]] of capacity 4, seen through two proxies: [locked]
    is restricted, [open] is not. *)
Definition vec123 : DynamicVector := {| elements := [1; 2; 3]%Z; cap := 4 |}.
Definition w0 : World := {| vectors := [vec123]; restrictions := [true; false] |}.
Definition locked : Proxy := {| target := 0; flag := 0 |}.
Definition open : Proxy := {| target := 0; flag := 1 |}.

End Sample.


(** ** Vocabulary of the further statements *)
Section FurtherVocabulary.
Context {T : VectorTypes} {W : Type}.

(** What a call is made on: the predicate or the accessor of a proxy, a
    member of the represented vector, or a reference into it. *)
Inductive call_kind : Type :=
| kind_predicate
| kind_get
| kind_vector
| kind_reference.

Definition kind_of (c : call) : call_kind :=
  match c with
  | isRestricted _ => kind_predicate
  | get _ => kind_get
  | ref_assign _ _ | ref_value _ => kind_reference
  | _ => kind_vector
  end.

Definition is_get (c : call) : bool :=
  match c with get _ => true | _ => false end.

(** A call on a proxy is a call on [this]. *)
Definition addressed_to (this : PT) (c : call) : Prop :=
  match c with
  | isRestricted p | get p => p = this
  | _ => True
  end.

(** The calls a member makes when nothing stops it, by kind and in order. *)
Definition full_course (m : member) : list call_kind :=
  if gated m then [kind_predicate; kind_get; kind_vector] else [kind_get; kind_vector].

(** The world in which a member asks the proxy for the vector: the one the
    call started in or, for a gated member, the one in which the predicate
    answered false.  There is none when the gate does not let the call by. *)
Definition world_past_gate (h : handler W) (m : member) (this : PT) (w : W) : option W :=
  if gated m
  then match h (isRestricted this) w with
       | (Returned false, w1) => Some w1
       | _ => None
       end
  else Some w.

(** An implementation in which the calls selected by [fails] throw [e]. *)
Definition with_failure (fails : call → bool) (e : exception) (h : handler W) : handler W :=
  λ c w, if fails c then (Thrown e, w) else h c w.

(** An implementation in which the predicate of the proxies selected by
    [hit] answers [b]. *)
Definition override_isRestricted (hit : PT → bool) (b : bool) (h : handler W) : handler W :=
  λ c,
    match c return W → result (ret_type c) * W with
    | isRestricted p => λ w, if hit p then (Returned b, w) else h (isRestricted p) w
    | c' => h c'
    end.

End FurtherVocabulary.

(** * Properties *)

(** ** How the two kinds of member run *)
Section Runs.
Context {T : VectorTypes} {W : Type} (h : handler W).

Lemma run_ungated (m : member) (this : PT) (w : W) :
  gated m = false → run h (invoke m this) w = forwarded h m this w.
Proof. destruct m; intros Hm; try discriminate Hm; reflexivity. Qed.

Lemma run_gated (m : member) (this : PT) (w : W) :
  gated m = true →
  run h (invoke m this) w =
    match h (isRestricted this) w with
    | (Returned true, w') =>
        Outcome (Thrown AccessRestricted) w' [Event (isRestricted this) (Returned true)]
    | (Returned false, w') =>
        after (Event (isRestricted this) (Returned false)) (forwarded h m this w')
    | (Thrown e, w') => Outcome (Thrown e) w' [Event (isRestricted this) (Thrown e)]
    end.
Proof.
  destruct m; intros Hm; try discriminate Hm; cbn;
    destruct (h (isRestricted this) w) as [[[]|e] w']; reflexivity.
Qed.

Lemma run_direct_calls (m : member) (v : VT) (w : W) :
  Forall (λ ev, on_representee (ev_call ev) = true) (calls (run h (direct m v) w)).
Proof.
  destruct m; cbn;
    match goal with |- context [h ?c w] => destruct (h c w) as [[x|e] w'] end;
    cbn; repeat constructor.
Qed.

Lemma forwarded_no_isRestricted (m : member) (this : PT) (w : W) :
  Forall (λ ev, is_isRestricted (ev_call ev) = false) (calls (forwarded h m this w)).
Proof.
  unfold forwarded. destruct (h (get this) w) as [[v|e] w']; cbn.
  - constructor; [reflexivity|].
    eapply Forall_impl; [apply run_direct_calls|].
    intros [c a]; cbn. destruct c; cbn; congruence.
  - repeat constructor.
Qed.

Lemma run_direct_single (m : member) (v : VT) (w : W) :
  ∃ (c : call) (a : result (ret_type c)),
    on_representee c = true ∧ calls (run h (direct m v) w) = [Event c a].
Proof.
  destruct m; cbn;
    match goal with |- context [h ?c w] =>
      exists c, (fst (h c w)); destruct (h c w) as [[x|e] w']
    end; cbn; split; reflexivity.
Qed.

Lemma run_direct_exception (m : member) (v : VT) (w : W) (e : exception) :
  value (run h (direct m v) w) = Thrown e →
  raised_by_collaborator (run h (direct m v) w) e.
Proof.
  unfold raised_by_collaborator.
  destruct m; cbn;
    match goal with |- context [h ?c w] =>
      intros He; exists c; revert He; destruct (h c w) as [[x|e'] w']
    end; cbn; intros [= <-]; split; reflexivity.
Qed.

Lemma forwarded_exception (m : member) (this : PT) (w : W) (e : exception) :
  value (forwarded h m this w) = Thrown e →
  raised_by_collaborator (forwarded h m this w) e.
Proof.
  unfold forwarded. destruct (h (get this) w) as [[v|e'] w']; cbn.
  - intros He. destruct (run_direct_exception m v w' e He) as (c & Hc & Hl).
    exists c. split; [exact Hc|]. cbn.
    destruct (run_direct_single m v w') as (c' & a' & _ & Hs).
    rewrite Hs in Hl |- *. exact Hl.
  - intros [= <-]. exists (get this). split; reflexivity.
Qed.

Lemma isRestricted_count_none (t : list event) :
  Forall (λ ev, is_isRestricted (ev_call ev) = false) t → isRestricted_count t = 0.
Proof.
  unfold isRestricted_count.
  induction 1 as [|ev t Hev _ IH]; [reflexivity|].
  rewrite filter_cons_False; [exact IH|]. rewrite Hev. discriminate.
Qed.

Lemma forwarded_isRestricted_count (m : member) (this : PT) (w : W) :
  isRestricted_count (calls (forwarded h m this w)) = 0.
Proof. apply isRestricted_count_none, forwarded_no_isRestricted. Qed.

Lemma forwarded_same_but_isRestricted (h' : handler W) (m : member) (this : PT) (w : W) :
  same_but_isRestricted h h' → forwarded h' m this w = forwarded h m this w.
Proof.
  intros Hsame. unfold forwarded.
  rewrite (Hsame (get this) w eq_refl).
  destruct (h (get this) w) as [[v|e] w']; [|reflexivity].
  f_equal. destruct m; cbn; rewrite Hsame by reflexivity; reflexivity.
Qed.

End Runs.

(** ** The gate *)

(** C1.  On a proxy whose restriction predicate evaluates true, every gated
    operation -- [operator[]], [data], mutable [begin] and [end], [resize],
    [extend], [reserve], [scale] -- ends with the access-restricted exception;
    the only call made is the evaluation of the predicate, so none reaches the
    represented vector, and the world is as that evaluation left it.  With a
    predicate free of side effects (its contract) the world is the one the
    call started in: [size], [capacity], [nonZeros] and every element read
    back as before. *)
Theorem gated_member_denied_when_restricted {T : VectorTypes} {W : Type}
    (h : handler W) (m : member) (this : PT) (w w1 : W) :
  gated m = true →
  h (isRestricted this) w = (Returned true, w1) →
  let o := run h (invoke m this) w in
  value o = Thrown AccessRestricted
  ∧ calls o = [Event (isRestricted this) (Returned true)]
  ∧ Forall (λ ev, on_representee (ev_call ev) = false) (calls o)
  ∧ world o = w1
  ∧ (w1 = w →
     world o = w
     ∧ ∀ v : VT,
         run h (direct m_size v) (world o) = run h (direct m_size v) w
         ∧ run h (direct m_capacity v) (world o) = run h (direct m_capacity v) w
         ∧ run h (direct m_nonZeros v) (world o) = run h (direct m_nonZeros v) w
         ∧ ∀ i : size_t, run h (read_direct v i) (world o) = run h (read_direct v i) w).
Proof.
  intros Hm Hr o. subst o. rewrite (run_gated h m this w Hm), Hr. cbn.
  split; [reflexivity|]. split; [reflexivity|].
  split; [repeat constructor|]. split; [reflexivity|].
  intros ->. repeat split.
Qed.

Lemma gated_member_denied_when_restricted_witness :
  let o := run Sample.handle (invoke (@m_scale Sample.types 2%Z) Sample.locked) Sample.w0 in
  value o = Thrown (invalid_argument "Invalid access to restricted element")
  ∧ Sample.vectors (world o) = [{| Sample.elements := [1; 2; 3]%Z; Sample.cap := 4 |}]
  ∧ value (run Sample.handle (direct (@m_size Sample.types) 0) (world o)) = Returned 3%N
  ∧ value (run Sample.handle (@read_direct Sample.types 0 2%N) (world o)) = Returned 3%Z.
Proof.
  pose proof (gated_member_denied_when_restricted
                Sample.handle (@m_scale Sample.types 2%Z) Sample.locked
                Sample.w0 Sample.w0 eq_refl eq_refl) as (Hv & _ & _ & _ & Hpure).
  destruct (Hpure eq_refl) as (Hw & _).
  cbv zeta in *. rewrite Hw. split; [exact Hv|]. repeat split.
Defined.

(** C8.  Whatever gated operation is denied, on whatever proxy, the
    exception is the same: [std::invalid_argument] with the text
    "Invalid access to restricted element".  Nothing in it tells which
    operation was denied. *)
Theorem denial_exception_is_uniform {T : VectorTypes} {W : Type}
    (h : handler W) (m1 m2 : member) (p1 p2 : PT) (w1 w2 : W) :
  gated m1 = true → gated m2 = true →
  fst (h (isRestricted p1) w1) = Returned true →
  fst (h (isRestricted p2) w2) = Returned true →
  thrown (value (run h (invoke m1 p1) w1))
    = Some (invalid_argument "Invalid access to restricted element")
  ∧ thrown (value (run h (invoke m2 p2) w2))
    = thrown (value (run h (invoke m1 p1) w1)).
Proof.
  intros Hm1 Hm2 Hr1 Hr2.
  rewrite (run_gated h m1 p1 w1 Hm1), (run_gated h m2 p2 w2 Hm2).
  destruct (h (isRestricted p1) w1) as [a1 w1'], (h (isRestricted p2) w2) as [a2 w2'].
  cbn in Hr1, Hr2. subst a1 a2. split; reflexivity.
Qed.

Lemma denial_exception_is_uniform_witness :
  thrown (value (run Sample.handle (invoke (@m_subscript Sample.types 1%N) Sample.locked) Sample.w0))
    = Some (invalid_argument "Invalid access to restricted element")
  ∧ thrown (value (run Sample.handle (invoke (@m_reserve Sample.types 9%N) Sample.locked) Sample.w0))
    = thrown (value (run Sample.handle (invoke (@m_subscript Sample.types 1%N) Sample.locked) Sample.w0)).
Proof.
  apply (denial_exception_is_uniform Sample.handle
           (@m_subscript Sample.types 1%N) (@m_reserve Sample.types 9%N) Sample.locked Sample.locked
           Sample.w0 Sample.w0); reflexivity.
Defined.

(** C5.  On a proxy whose restriction predicate evaluates false, a gated
    operation asks the proxy for the vector and makes exactly one call on it:
    the same operation with the same arguments.  What that call returns or
    throws is what the proxy returns or throws, and the world is left as that
    call left it.  Element access passes any index on, in range or not. *)
Theorem gated_member_forwards_when_unrestricted {T : VectorTypes} {W : Type}
    (h : handler W) (m : member) (this : PT) (w w1 w2 : W) (v : VT) :
  gated m = true →
  h (isRestricted this) w = (Returned false, w1) →
  h (get this) w1 = (Returned v, w2) →
  let o := run h (invoke m this) w in
  let d := run h (direct m v) w2 in
  value o = value d
  ∧ world o = world d
  ∧ calls o = Event (isRestricted this) (Returned false)
                :: Event (get this) (Returned v) :: calls d
  ∧ (∃ (c : call) (a : result (ret_type c)),
       on_representee c = true ∧ calls d = [Event c a])
  ∧ (∀ e : exception, value d = Thrown e → value o = Thrown e)
  ∧ (∀ index : size_t,
       calls (run h (direct (m_subscript index) v) w2)
       = [Event (vt_subscript v index) (fst (h (vt_subscript v index) w2))]).
Proof.
  intros Hm Hr Hg o d. subst o d.
  rewrite (run_gated h m this w Hm), Hr. unfold forwarded. rewrite Hg. cbn.
  repeat split.
  - apply run_direct_single.
  - intros e He. exact He.
  - intros index. cbn. destruct (h (vt_subscript v index) w2) as [[r|e] w3]; reflexivity.
Qed.

Lemma gated_member_forwards_when_unrestricted_witness :
  let o := run Sample.handle (invoke (@m_subscript Sample.types 7%N) Sample.open) Sample.w0 in
  value o = Thrown (out_of_range "Invalid vector access index")
  ∧ value (run Sample.handle (invoke (@m_scale Sample.types 2%Z) Sample.open) Sample.w0) = Returned ()
  ∧ Sample.vectors (world (run Sample.handle (invoke (@m_scale Sample.types 2%Z) Sample.open) Sample.w0))
    = [{| Sample.elements := [2; 4; 6]%Z; Sample.cap := 4 |}].
Proof.
  pose proof (gated_member_forwards_when_unrestricted
                Sample.handle (@m_subscript Sample.types 7%N) Sample.open
                Sample.w0 Sample.w0 Sample.w0 0 eq_refl eq_refl eq_refl)
    as (Hv & _).
  pose proof (gated_member_forwards_when_unrestricted
                Sample.handle (@m_scale Sample.types 2%Z) Sample.open
                Sample.w0 Sample.w0 Sample.w0 0 eq_refl eq_refl eq_refl)
    as (Hs & Hw & _).
  cbv zeta in *. rewrite Hv, Hs, Hw. repeat split.
Defined.

(** ** The operations without a gate *)

Lemma is_query_ungated {T : VectorTypes} (m : member) : is_query m = true → gated m = false.
Proof. destruct m; (discriminate || reflexivity). Qed.

(** C4.  [size], [capacity], [nonZeros], [cbegin] and [cend] ask the proxy
    for the vector and invoke the same operation on it: the value (or the
    exception) is that of the vector's own operation, the restriction
    predicate is not evaluated, an exception can only come from the call that
    raised it on a collaborator, and an implementation that differs in what
    [isRestricted] answers gives the very same run. *)
Theorem queries_answer_as_the_representee {T : VectorTypes} {W : Type}
    (h : handler W) (m : member) (this : PT) (w w1 : W) (v : VT) :
  is_query m = true →
  h (get this) w = (Returned v, w1) →
  let o := run h (invoke m this) w in
  let d := run h (direct m v) w1 in
  value o = value d
  ∧ world o = world d
  ∧ calls o = Event (get this) (Returned v) :: calls d
  ∧ isRestricted_count (calls o) = 0
  ∧ (∀ e : exception, value o = Thrown e → raised_by_collaborator o e)
  ∧ (∀ h' : handler W, same_but_isRestricted h h' → run h' (invoke m this) w = o).
Proof.
  intros Hq Hg o d. subst o d.
  pose proof (is_query_ungated m Hq) as Hm.
  rewrite (run_ungated h m this w Hm).
  repeat split.
  - unfold forwarded. rewrite Hg. reflexivity.
  - unfold forwarded. rewrite Hg. reflexivity.
  - unfold forwarded. rewrite Hg. reflexivity.
  - apply forwarded_isRestricted_count.
  - apply forwarded_exception.
  - intros h' Hsame. rewrite (run_ungated h' m this w Hm).
    apply forwarded_same_but_isRestricted, Hsame.
Qed.

Lemma queries_answer_as_the_representee_witness :
  value (run Sample.handle (invoke (@m_size Sample.types) Sample.locked) Sample.w0)
    = Returned 3%N
  ∧ value (run Sample.handle (invoke (@m_cend Sample.types) Sample.locked) Sample.w0)
    = Returned (0, 3%N).
Proof.
  pose proof (queries_answer_as_the_representee
                Sample.handle (@m_size Sample.types) Sample.locked
                Sample.w0 Sample.w0 0 eq_refl eq_refl) as (Hs & _).
  pose proof (queries_answer_as_the_representee
                Sample.handle (@m_cend Sample.types) Sample.locked
                Sample.w0 Sample.w0 0 eq_refl eq_refl) as (He & _).
  cbv zeta in *. rewrite Hs, He. split; reflexivity.
Defined.

(** C2.  [reset] and [clear] have no gate: whatever [isRestricted] would
    answer, the run never evaluates it, is the same under an implementation
    that answers differently, and consists of asking the proxy for the vector
    and applying the vector's reset (clear) to it -- so the vector is mutated
    even through a restricted proxy.  An exception, if any, is one a
    collaborator raised, never one of the proxy's own. *)
Theorem reset_and_clear_are_not_gated {T : VectorTypes} {W : Type}
    (h : handler W) (m : member) (this : PT) (w : W) :
  m = m_reset ∨ m = m_clear →
  let o := run h (invoke m this) w in
  isRestricted_count (calls o) = 0
  ∧ (∀ h' : handler W, same_but_isRestricted h h' → run h' (invoke m this) w = o)
  ∧ (∀ (v : VT) (w1 : W), h (get this) w = (Returned v, w1) →
       o = after (Event (get this) (Returned v)) (run h (direct m v) w1))
  ∧ (∀ e : exception, value o = Thrown e → raised_by_collaborator o e).
Proof.
  intros Hm o. subst o.
  assert (Hg : gated m = false) by (destruct Hm; subst m; reflexivity).
  rewrite (run_ungated h m this w Hg).
  repeat split.
  - apply forwarded_isRestricted_count.
  - intros h' Hsame. rewrite (run_ungated h' m this w Hg).
    apply forwarded_same_but_isRestricted, Hsame.
  - intros v w1 Hget. unfold forwarded. rewrite Hget. reflexivity.
  - apply forwarded_exception.
Qed.

Lemma reset_and_clear_are_not_gated_witness :
  let o := run Sample.handle (invoke (@m_clear Sample.types) Sample.locked) Sample.w0 in
  fst (Sample.handle (@isRestricted Sample.types Sample.locked) Sample.w0) = Returned true
  ∧ value o = Returned ()
  ∧ Sample.vectors (world o) = [{| Sample.elements := []; Sample.cap := 4 |}].
Proof.
  pose proof (reset_and_clear_are_not_gated
                Sample.handle (@m_clear Sample.types) Sample.locked Sample.w0
                (or_intror eq_refl)) as (_ & _ & Hd & _).
  cbv zeta in *. rewrite (Hd 0 Sample.w0 eq_refl). repeat split.
Defined.

(** C9.  For each operation without a gate ([size], [capacity], [nonZeros],
    [cbegin], [cend], [reset], [clear]) and two proxies that hand out the same
    vector, whatever their restriction predicates answer, the two runs return
    the same value, leave the same world, make the same calls after [get],
    and neither evaluates [isRestricted]; likewise one proxy under two
    implementations that differ only in [isRestricted] runs identically. *)
Theorem ungated_members_ignore_restriction {T : VectorTypes} {W : Type}
    (h : handler W) (m : member) (p1 p2 : PT) (w : W) :
  gated m = false →
  h (get p1) w = h (get p2) w →
  let o1 := run h (invoke m p1) w in
  let o2 := run h (invoke m p2) w in
  value o1 = value o2
  ∧ world o1 = world o2
  ∧ tail (calls o1) = tail (calls o2)
  ∧ isRestricted_count (calls o1) = 0
  ∧ isRestricted_count (calls o2) = 0
  ∧ (∀ h' : handler W, same_but_isRestricted h h' →
       run h' (invoke m p1) w = o1 ∧ run h' (invoke m p2) w = o2).
Proof.
  intros Hm Hget o1 o2. subst o1 o2.
  rewrite !(run_ungated h m _ w Hm).
  split; [|split; [|split; [|split; [|split]]]];
    try apply forwarded_isRestricted_count.
  - unfold forwarded; rewrite Hget;
      destruct (h (get p2) w) as [[v|e] w']; reflexivity.
  - unfold forwarded; rewrite Hget;
      destruct (h (get p2) w) as [[v|e] w']; reflexivity.
  - unfold forwarded; rewrite Hget;
      destruct (h (get p2) w) as [[v|e] w']; reflexivity.
  - intros h' Hsame. rewrite !(run_ungated h' m _ w Hm).
    split; apply forwarded_same_but_isRestricted, Hsame.
Qed.

Lemma ungated_members_ignore_restriction_witness :
  fst (Sample.handle (@isRestricted Sample.types Sample.locked) Sample.w0) = Returned true
  ∧ fst (Sample.handle (@isRestricted Sample.types Sample.open) Sample.w0) = Returned false
  ∧ value (run Sample.handle (invoke (@m_reset Sample.types) Sample.locked) Sample.w0)
    = value (run Sample.handle (invoke (@m_reset Sample.types) Sample.open) Sample.w0)
  ∧ world (run Sample.handle (invoke (@m_reset Sample.types) Sample.locked) Sample.w0)
    = world (run Sample.handle (invoke (@m_reset Sample.types) Sample.open) Sample.w0).
Proof.
  pose proof (ungated_members_ignore_restriction
                Sample.handle (@m_reset Sample.types) Sample.locked Sample.open
                Sample.w0 eq_refl eq_refl) as (Hv & Hw & _).
  repeat split; assumption.
Defined.

(** ** One evaluation of the predicate per gated call *)

Lemma gated_evaluates_once {T : VectorTypes} {W : Type}
    (h : handler W) (m : member) (this : PT) (w : W) :
  gated m = true →
  head (calls (run h (invoke m this) w))
    = Some (Event (isRestricted this) (fst (h (isRestricted this) w)))
  ∧ isRestricted_count (calls (run h (invoke m this) w)) = 1.
Proof.
  intros Hm. rewrite (run_gated h m this w Hm).
  destruct (h (isRestricted this) w) as [[[]|e] w']; split; try reflexivity.
  change (isRestricted_count
            (Event (isRestricted this) (Returned false) :: calls (forwarded h m this w')) = 1).
  unfold isRestricted_count. rewrite filter_cons_True by reflexivity.
  cbn [length]. f_equal. apply forwarded_isRestricted_count.
Qed.

(** C7.  Two gated calls on the same proxy, with anything happening to the
    world in between: each call evaluates [isRestricted] exactly once, as its
    first call, in the world it is made in; and the second call is denied or
    forwarded according to the answer in its own world, whatever the first
    call met. *)
Theorem restriction_is_evaluated_on_every_gated_call {T : VectorTypes} {W : Type}
    (h : handler W) (m1 m2 : member) (this : PT) (between : W → W) (w : W) :
  gated m1 = true → gated m2 = true →
  let o1 := run h (invoke m1 this) w in
  let w' := between (world o1) in
  let o2 := run h (invoke m2 this) w' in
  (head (calls o1) = Some (Event (isRestricted this) (fst (h (isRestricted this) w)))
   ∧ isRestricted_count (calls o1) = 1)
  ∧ (head (calls o2) = Some (Event (isRestricted this) (fst (h (isRestricted this) w')))
     ∧ isRestricted_count (calls o2) = 1)
  ∧ (∀ w1 : W, h (isRestricted this) w = (Returned true, w1) →
       o1 = Outcome (Thrown AccessRestricted) w1
              [Event (isRestricted this) (Returned true)])
  ∧ (∀ w1 : W, h (isRestricted this) w = (Returned false, w1) →
       o1 = after (Event (isRestricted this) (Returned false)) (forwarded h m1 this w1))
  ∧ (∀ w1 : W, h (isRestricted this) w' = (Returned true, w1) →
       o2 = Outcome (Thrown AccessRestricted) w1
              [Event (isRestricted this) (Returned true)])
  ∧ (∀ w1 : W, h (isRestricted this) w' = (Returned false, w1) →
       o2 = after (Event (isRestricted this) (Returned false)) (forwarded h m2 this w1)).
Proof.
  intros Hm1 Hm2 o1 w' o2. subst o2. subst w'. subst o1.
  split; [apply gated_evaluates_once, Hm1|].
  split; [apply gated_evaluates_once, Hm2|].
  repeat split; intros w1 Hr.
  - rewrite (run_gated h m1 this w Hm1), Hr. reflexivity.
  - rewrite (run_gated h m1 this w Hm1), Hr. reflexivity.
  - rewrite (run_gated h m2 this _ Hm2), Hr. reflexivity.
  - rewrite (run_gated h m2 this _ Hm2), Hr. reflexivity.
Qed.

Lemma restriction_is_evaluated_on_every_gated_call_witness :
  let o1 := run Sample.handle (invoke (@m_scale Sample.types 2%Z) Sample.locked) Sample.w0 in
  let w' := Sample.set_restriction 0 false (world o1) in
  let o2 := run Sample.handle (invoke (@m_scale Sample.types 2%Z) Sample.locked) w' in
  value o1 = Thrown (invalid_argument "Invalid access to restricted element")
  ∧ value o2 = Returned ()
  ∧ Sample.vectors (world o2) = [{| Sample.elements := [2; 4; 6]%Z; Sample.cap := 4 |}]
  ∧ isRestricted_count (calls o1) = 1
  ∧ isRestricted_count (calls o2) = 1.
Proof.
  pose proof (restriction_is_evaluated_on_every_gated_call
                Sample.handle (@m_scale Sample.types 2%Z) (@m_scale Sample.types 2%Z)
                Sample.locked (Sample.set_restriction 0 false) Sample.w0
                eq_refl eq_refl) as ((_ & Hc1) & (_ & Hc2) & Hd1 & _ & _ & Hf2).
  cbv zeta in *.
  rewrite (Hd1 Sample.w0 eq_refl) in Hf2 |- *.
  specialize (Hf2 _ eq_refl).
  split; [reflexivity|]. rewrite Hf2 at 1 2.
  split; [reflexivity|]. split; [reflexivity|].
  split; [exact Hc1|]. rewrite (Hd1 Sample.w0 eq_refl) in Hc2. exact Hc2.
Defined.

(** ** Global functions *)

(** C3 (as amended).  The header defines a global function for exactly nine
    operations -- [begin], [cbegin], [end], [cend], [size], [capacity],
    [nonZeros], [reset], [clear] -- and each is the member call itself: the
    same program, hence the same value or exception, world and calls under
    every implementation and in every world, restricted or not.  For
    [operator[]], [data], [resize], [extend], [reserve] and [scale] the header
    defines no global function. *)
Theorem global_functions_delegate {T : VectorTypes} (m : member) :
  if has_global_function m
  then ∃ f : PT → Prog (member_type m),
         free_function m = Some f
         ∧ (∀ proxy : PT, f proxy = invoke m proxy)
         ∧ (∀ (W : Type) (h : handler W) (proxy : PT) (w : W),
              run h (f proxy) w = run h (invoke m proxy) w)
  else free_function m = None.
Proof.
  destruct m; cbn; try reflexivity; eexists; (split; [reflexivity|]);
    split; reflexivity.
Qed.

(** C3 (as stated) fails: not every operation of the surface has a global
    function; [data] has none. *)
Lemma data_has_no_global_function :
  ¬ (∀ m : @member Sample.types,
       ∃ f : Sample.Proxy → Prog (member_type m),
         free_function m = Some f
         ∧ ∀ (proxy : Sample.Proxy) (w : Sample.World),
             run Sample.handle (f proxy) w = run Sample.handle (invoke m proxy) w).
Proof.
  intros Hall. destruct (Hall m_data) as (f & Hf & _). discriminate Hf.
Qed.

(** ** Default arguments *)

(** C10.  [resize( n )] is [resize( n, true )] and [extend( n )] is
    [extend( n, true )]: the [preserve] argument defaults to [true] in both
    declarations, and a given argument is passed as it is. *)
Theorem preserve_defaults_to_true {T : VectorTypes} (this : PT) (n : size_t) :
  DenseVectorProxy.resize_call this n None = DenseVectorProxy.resize this n true
  ∧ DenseVectorProxy.extend_call this n None = DenseVectorProxy.extend this n true
  ∧ (∀ (W : Type) (h : handler W) (w : W),
       run h (DenseVectorProxy.resize_call this n None) w = run h (invoke (m_resize n true) this) w
       ∧ run h (DenseVectorProxy.extend_call this n None) w = run h (invoke (m_extend n true) this) w)
  ∧ (∀ preserve : bool,
       DenseVectorProxy.resize_call this n (Some preserve) = DenseVectorProxy.resize this n preserve
       ∧ DenseVectorProxy.extend_call this n (Some preserve) = DenseVectorProxy.extend this n preserve).
Proof. repeat split. Qed.

(** ** Writing through the proxy *)

(** The sample vector honours the contract for element writes. *)
Lemma sample_stores_assigned_elements : stores_assigned_elements Sample.handle.
Proof.
  intros v i n x [vs rs] Hsize Hlt. cbn in v, i, n, x.
  cbn in Hsize. unfold Sample.on_vector in Hsize. cbn in Hsize.
  destruct (vs !! v) as [d|] eqn:Hd; cbn in Hsize; [|discriminate Hsize].
  injection Hsize as <-.
  assert (Hv : v < length vs) by (eapply lookup_lt_Some; exact Hd).
  assert (Hi : (i <? Sample.length_of d)%N = true) by (apply N.ltb_lt; exact Hlt).
  assert (Hn : N.to_nat i < length (Sample.elements d))
    by (unfold Sample.length_of in Hlt; lia).
  cbn. unfold Sample.on_vector. cbn. rewrite Hd. unfold Sample.checked_index. rewrite Hi. cbn.
  rewrite list_lookup_insert_eq by exact Hv. rewrite Hi. cbn.
  rewrite list_lookup_insert_eq by (rewrite length_insert; exact Hv).
  unfold Sample.length_of at 1. cbn [Sample.elements]. rewrite length_insert.
  fold (Sample.length_of d). rewrite Hi. cbn.
  rewrite list_lookup_insert_eq by (rewrite !length_insert; exact Hv).
  cbn. rewrite list_lookup_insert_eq by exact Hn. reflexivity.
Qed.

(** Past the gate, writing through the proxy is writing to the vector. *)
Lemma write_through_proxy_unrestricted {T : VectorTypes} {W : Type} {R : Type}
    (h : handler W) (this : PT) (i : size_t) (x : ElementType)
    (k : unit → Prog R) (w w1 w2 : W) (v : VT) :
  h (isRestricted this) w = (Returned false, w1) →
  h (get this) w1 = (Returned v, w2) →
  value (run h (write_through_proxy this i x ≫= k) w)
    = value (run h (write_direct v i x ≫= k) w2)
  ∧ world (run h (write_through_proxy this i x ≫= k) w)
    = world (run h (write_direct v i x ≫= k) w2).
Proof.
  intros Hr Hg. cbn. rewrite Hr. cbn. rewrite Hg. cbn. split; reflexivity.
Qed.

(** C6.  Let the represented vector keep what is assigned through its
    references at valid indices.  On an unrestricted proxy, for an index [i]
    below the vector's [size()], assigning [x] to [proxy[i]] and then reading
    [v[i]] on the vector itself yields [x]. *)
Theorem write_through_proxy_then_read_directly {T : VectorTypes} {W : Type}
    (h : handler W) (this : PT) (i n : size_t) (x : ElementType)
    (w w1 w2 : W) (v : VT) :
  stores_assigned_elements h →
  h (isRestricted this) w = (Returned false, w1) →
  h (get this) w1 = (Returned v, w2) →
  fst (h (vt_size v) w2) = Returned n →
  (i < n)%N →
  value (run h (write_through_proxy this i x ≫= λ _, read_direct v i) w) = Returned x.
Proof.
  intros Hstore Hr Hg Hsize Hlt.
  destruct (write_through_proxy_unrestricted h this i x (λ _, read_direct v i)
              w w1 w2 v Hr Hg) as [-> _].
  exact (Hstore v i n x w2 Hsize Hlt).
Qed.

Lemma write_through_proxy_then_read_directly_witness :
  value (run Sample.handle
           (@write_through_proxy Sample.types Sample.open 1%N 42%Z
              ≫= λ _, @read_direct Sample.types 0 1%N) Sample.w0) = Returned 42%Z.
Proof.
  apply (write_through_proxy_then_read_directly
           Sample.handle Sample.open 1%N 3%N 42%Z Sample.w0 Sample.w0 Sample.w0 0).
  - exact sample_stores_assigned_elements.
  - reflexivity.
  - reflexivity.
  - reflexivity.
  - reflexivity.
Defined.

(** * Further properties of the member functions *)

Section FurtherRuns.
Context {T : VectorTypes} {W : Type} (h : handler W).

Lemma run_bind {A B : Type} (p : Prog A) (f : A → Prog B) (w : W) :
  run h (p ≫= f) w =
    match value (run h p w) with
    | Returned a =>
        Outcome (value (run h (f a) (world (run h p w))))
                (world (run h (f a) (world (run h p w))))
                (calls (run h p w) ++ calls (run h (f a) (world (run h p w))))%list
    | Thrown e => Outcome (Thrown e) (world (run h p w)) (calls (run h p w))
    end.
Proof.
  revert w. induction p as [a|e|c k IH]; intros w.
  - cbn. destruct (run h (f a) w); reflexivity.
  - reflexivity.
  - change (run h (Do c k ≫= f) w) with (run h (Do c (λ x, k x ≫= f)) w).
    cbn. destruct (h c w) as [[x|e] w']; [|reflexivity].
    rewrite IH. cbn. destruct (value (run h (k x) w')); reflexivity.
Qed.

Lemma run_past_gate (m : member) (this : PT) (w w1 : W) :
  world_past_gate h m this w = Some w1 →
  value (run h (invoke m this) w) = value (forwarded h m this w1)
  ∧ world (run h (invoke m this) w) = world (forwarded h m this w1)
  ∧ ∃ t : list event,
      calls (run h (invoke m this) w) = (t ++ calls (forwarded h m this w1))%list
         ∧ Forall (λ ev, on_representee (ev_call ev) = false) t.
Proof.
  unfold world_past_gate. destruct (gated m) eqn:Hm.
  - rewrite (run_gated h m this w Hm).
    destruct (h (isRestricted this) w) as [[[]|e] w']; try discriminate.
    intros [= ->]. cbn. repeat split.
    exists [Event (isRestricted this) (Returned false)]. split; [reflexivity|].
    repeat constructor.
  - rewrite (run_ungated h m this w Hm). intros [= ->]. repeat split.
    exists []. split; [reflexivity|constructor].
Qed.

Lemma run_direct_kind (m : member) (v : VT) (w : W) :
  ∃ (c : call) (a : result (ret_type c)),
    kind_of c = kind_vector ∧ calls (run h (direct m v) w) = [Event c a].
Proof.
  destruct m; cbn;
    match goal with |- context [h ?c w] =>
      exists c, (fst (h c w)); destruct (h c w) as [[x|e] w']
    end; cbn; split; reflexivity.
Qed.

Lemma override_same_but_isRestricted (hit : PT → bool) (b : bool) :
  same_but_isRestricted h (override_isRestricted hit b h).
Proof. intros c w Hc. destruct c; (discriminate Hc || reflexivity). Qed.

End FurtherRuns.

(** ** Failures *)

(** X1.  A gated operation returns a value only when the predicate answered
    false: then the proxy handed out a vector, the vector's own operation
    returned that very value, the world is as that operation left it, and the
    call made exactly three calls. *)
Theorem gated_return_means_gate_passed {T : VectorTypes} {W : Type}
    (h : handler W) (m : member) (this : PT) (w : W) (x : member_type m) :
  gated m = true →
  value (run h (invoke m this) w) = Returned x →
  ∃ (w1 w2 : W) (v : VT),
    h (isRestricted this) w = (Returned false, w1)
    ∧ h (get this) w1 = (Returned v, w2)
    ∧ value (run h (direct m v) w2) = Returned x
    ∧ world (run h (invoke m this) w) = world (run h (direct m v) w2)
    ∧ length (calls (run h (invoke m this) w)) = 3.
Proof.
  intros Hm. rewrite (run_gated h m this w Hm).
  destruct (h (isRestricted this) w) as [[[]|e] w1] eqn:Hr; try (cbn; discriminate).
  unfold forwarded.
  destruct (h (get this) w1) as [[v|e] w2] eqn:Hg; try (cbn; discriminate).
  intros Hx. exists w1, w2, v.
  split; [reflexivity|]. split; [exact Hg|]. split; [exact Hx|].
  split; [reflexivity|].
  unfold after. cbn [calls length].
  destruct (run_direct_single h m v w2) as (c & a & _ & ->). reflexivity.
Qed.

Lemma gated_return_means_gate_passed_witness :
  ∃ (w1 w2 : Sample.World) (v : nat),
    Sample.handle (@isRestricted Sample.types Sample.open) Sample.w0 = (Returned false, w1)
    ∧ Sample.handle (@get Sample.types Sample.open) w1 = (Returned v, w2)
    ∧ value (run Sample.handle (direct (@m_end Sample.types) v) w2) = Returned (0, 3%N)
    ∧ world (run Sample.handle (invoke (@m_end Sample.types) Sample.open) Sample.w0)
      = world (run Sample.handle (direct (@m_end Sample.types) v) w2)
    ∧ length (calls (run Sample.handle (invoke (@m_end Sample.types) Sample.open) Sample.w0)) = 3.
Proof.
  exact (gated_return_means_gate_passed
           Sample.handle (@m_end Sample.types) Sample.open Sample.w0 (0, 3%N)
           eq_refl eq_refl).
Defined.

(** X2.  When the evaluation of the predicate itself throws, a gated
    operation throws that exception: the proxy is not asked for the vector
    and the vector is not called. *)
Theorem predicate_exception_propagates {T : VectorTypes} {W : Type}
    (h : handler W) (m : member) (this : PT) (w w1 : W) (e : exception) :
  gated m = true →
  h (isRestricted this) w = (Thrown e, w1) →
  run h (invoke m this) w
    = Outcome (Thrown e) w1 [Event (isRestricted this) (Thrown e)].
Proof.
  intros Hm Hr. rewrite (run_gated h m this w Hm), Hr. reflexivity.
Qed.

Lemma predicate_exception_propagates_witness :
  run (with_failure is_isRestricted bad_alloc Sample.handle)
      (invoke (@m_resize Sample.types 9%N false) Sample.open) Sample.w0
    = Outcome (Thrown bad_alloc) Sample.w0
        [Event (@isRestricted Sample.types Sample.open) (Thrown bad_alloc)].
Proof.
  apply (predicate_exception_propagates
           (with_failure is_isRestricted bad_alloc Sample.handle)
           (@m_resize Sample.types 9%N false) Sample.open Sample.w0 Sample.w0 bad_alloc);
    reflexivity.
Defined.

(** X3.  When [get()] throws -- in any operation, gated (past the gate) or
    not -- the operation throws that exception, the world is as [get()] left
    it, and no call reaches the represented vector. *)
Theorem get_exception_propagates {T : VectorTypes} {W : Type}
    (h : handler W) (m : member) (this : PT) (w w1 w2 : W) (e : exception) :
  world_past_gate h m this w = Some w1 →
  h (get this) w1 = (Thrown e, w2) →
  let o := run h (invoke m this) w in
  value o = Thrown e
  ∧ world o = w2
  ∧ last (calls o) = Some (Event (get this) (Thrown e))
  ∧ Forall (λ ev, on_representee (ev_call ev) = false) (calls o).
Proof.
  intros Hgate Hget o. subst o.
  destruct (run_past_gate h m this w w1 Hgate) as (-> & -> & t & -> & Ht).
  unfold forwarded. rewrite Hget. cbn.
  repeat split.
  - rewrite last_snoc. reflexivity.
  - apply Forall_app. split; [exact Ht|]. repeat constructor.
Qed.

Lemma get_exception_propagates_witness :
  let h := with_failure is_get (out_of_range "gone") Sample.handle in
  value (run h (invoke (@m_scale Sample.types 2%Z) Sample.open) Sample.w0)
    = Thrown (out_of_range "gone")
  ∧ world (run h (invoke (@m_scale Sample.types 2%Z) Sample.open) Sample.w0) = Sample.w0
  ∧ value (run h (invoke (@m_clear Sample.types) Sample.locked) Sample.w0)
    = Thrown (out_of_range "gone")
  ∧ world (run h (invoke (@m_clear Sample.types) Sample.locked) Sample.w0) = Sample.w0.
Proof.
  pose proof (get_exception_propagates
                (with_failure is_get (out_of_range "gone") Sample.handle)
                (@m_scale Sample.types 2%Z) Sample.open
                Sample.w0 Sample.w0 Sample.w0 (out_of_range "gone")
                eq_refl eq_refl) as (Hv1 & Hw1 & _).
  pose proof (get_exception_propagates
                (with_failure is_get (out_of_range "gone") Sample.handle)
                (@m_clear Sample.types) Sample.locked
                Sample.w0 Sample.w0 Sample.w0 (out_of_range "gone")
                eq_refl eq_refl) as (Hv2 & Hw2 & _).
  cbv zeta. repeat split; assumption.
Defined.

(** X4.  An exception that leaves a gated operation is either the gate's
    own -- [std::invalid_argument] with the text of the header, thrown right
    after the predicate answered true, no other call made -- or the
    exception that the last call made threw. *)
Theorem gated_exception_origin {T : VectorTypes} {W : Type}
    (h : handler W) (m : member) (this : PT) (w : W) (e : exception) :
  gated m = true →
  value (run h (invoke m this) w) = Thrown e →
  (e = invalid_argument "Invalid access to restricted element"
   ∧ calls (run h (invoke m this) w) = [Event (isRestricted this) (Returned true)])
  ∨ (∃ c : call, last (calls (run h (invoke m this) w)) = Some (Event c (Thrown e))).
Proof.
  intros Hm. rewrite (run_gated h m this w Hm).
  destruct (h (isRestricted this) w) as [[[]|e'] w1]; cbn.
  - intros [= <-]. left. split; reflexivity.
  - intros He. right.
    destruct (forwarded_exception h m this w1 e He) as (c & _ & Hl).
    exists c. destruct (calls (forwarded h m this w1)); [discriminate Hl|exact Hl].
  - intros [= <-]. right. exists (isRestricted this). reflexivity.
Qed.

Lemma gated_exception_origin_witness :
  (out_of_range "Invalid vector access index"
     = invalid_argument "Invalid access to restricted element"
   ∧ calls (run Sample.handle (invoke (@m_subscript Sample.types 7%N) Sample.open) Sample.w0)
     = [Event (@isRestricted Sample.types Sample.open) (Returned true)])
  ∨ (∃ c : call,
       last (calls (run Sample.handle (invoke (@m_subscript Sample.types 7%N) Sample.open)
                      Sample.w0))
       = Some (Event c (Thrown (out_of_range "Invalid vector access index")))).
Proof.
  exact (gated_exception_origin
           Sample.handle (@m_subscript Sample.types 7%N) Sample.open Sample.w0
           (out_of_range "Invalid vector access index") eq_refl eq_refl).
Defined.

(** ** What a member function calls *)

(** X5.  Whatever the collaborators do, the calls of an operation are an
    initial part of one fixed course: for a gated operation the predicate,
    then [get()], then one member of the vector; for the others [get()], then
    one member of the vector.  So an operation evaluates the predicate at most
    once and first, reaches the vector at most once and last, never uses a
    reference into the vector, and calls no proxy but its own. *)
Theorem member_call_discipline {T : VectorTypes} {W : Type}
    (h : handler W) (m : member) (this : PT) (w : W) :
  kind_of ∘ ev_call <$> calls (run h (invoke m this) w) `prefix_of` full_course m
  ∧ Forall (λ ev, addressed_to this (ev_call ev)) (calls (run h (invoke m this) w)).
Proof.
  assert (Hfwd : ∀ w0 : W,
            kind_of ∘ ev_call <$> calls (forwarded h m this w0)
              `prefix_of` [kind_get; kind_vector]
            ∧ Forall (λ ev, addressed_to this (ev_call ev)) (calls (forwarded h m this w0))).
  { intros w0. unfold forwarded.
    destruct (h (get this) w0) as [[v|e] w1].
    - destruct (run_direct_kind h m v w1) as (c & a & Hk & Hc).
      unfold after. cbn [calls]. rewrite Hc. cbn. rewrite Hk. split.
      + exists []. reflexivity.
      + repeat (apply List.Forall_cons; [cbn; trivial|]); [|apply List.Forall_nil].
        destruct c; (discriminate Hk || exact I).
    - cbn. split.
      + exists [kind_vector]. reflexivity.
      + repeat (apply List.Forall_cons; [cbn; trivial|]). apply List.Forall_nil. }
  unfold full_course. destruct (gated m) eqn:Hm.
  - rewrite (run_gated h m this w Hm).
    destruct (h (isRestricted this) w) as [[[]|e] w1].
    + cbn. split; [eexists; reflexivity|].
      apply List.Forall_cons; [reflexivity|apply List.Forall_nil].
    + destruct (Hfwd w1) as [[k Hk] Hall]. unfold after. cbn [calls]. split.
      * exists k. cbn. rewrite Hk. reflexivity.
      * apply List.Forall_cons; [reflexivity|exact Hall].
    + cbn. split; [eexists; reflexivity|].
      apply List.Forall_cons; [reflexivity|apply List.Forall_nil].
  - rewrite (run_ungated h m this w Hm). apply Hfwd.
Qed.

(** X6.  The restriction is the proxy's own: forcing any answer on the
    predicates of other proxies leaves every operation on this proxy as it
    was -- same value or exception, same world, same calls. *)
Theorem restriction_is_per_proxy {T : VectorTypes} {W : Type}
    (h : handler W) (m : member) (this : PT) (hit : PT → bool) (b : bool) (w : W) :
  hit this = false →
  run (override_isRestricted hit b h) (invoke m this) w = run h (invoke m this) w.
Proof.
  intros Hhit.
  pose proof (override_same_but_isRestricted h hit b) as Hsame.
  destruct (gated m) eqn:Hm.
  - rewrite !(run_gated _ m this w Hm).
    change (override_isRestricted hit b h (isRestricted this) w)
      with (if hit this then (Returned b, w) else h (isRestricted this) w).
    rewrite Hhit.
    destruct (h (isRestricted this) w) as [[[]|e] w1]; try reflexivity.
    rewrite (forwarded_same_but_isRestricted h _ m this w1 Hsame). reflexivity.
  - rewrite !(run_ungated _ m this w Hm).
    apply forwarded_same_but_isRestricted, Hsame.
Qed.

Lemma restriction_is_per_proxy_witness :
  let h := @override_isRestricted Sample.types _
             (λ p : Sample.Proxy, Nat.eqb (Sample.flag p) 0) true Sample.handle in
  fst (h (@isRestricted Sample.types Sample.locked) Sample.w0) = Returned true
  ∧ value (run h (invoke (@m_scale Sample.types 2%Z) Sample.open) Sample.w0) = Returned ()
  ∧ Sample.vectors (world (run h (invoke (@m_scale Sample.types 2%Z) Sample.open) Sample.w0))
    = [{| Sample.elements := [2; 4; 6]%Z; Sample.cap := 4 |}].
Proof.
  cbv zeta.
  rewrite (restriction_is_per_proxy
             Sample.handle (@m_scale Sample.types 2%Z) Sample.open
             (λ p : Sample.Proxy, Nat.eqb (Sample.flag p) 0) true Sample.w0 eq_refl).
  repeat split.
Defined.

(** ** The global functions and the gate *)

(** X7.  The global [begin] and [end] are gated like the members they call:
    on a proxy whose predicate answers true they throw the access-restricted
    exception and make no other call.  The seven other global functions --
    [cbegin], [cend], [size], [capacity], [nonZeros], [reset], [clear] -- go
    to [get()] and the vector all the same. *)
Theorem global_functions_and_the_gate {T : VectorTypes} {W : Type}
    (h : handler W) (proxy : PT) (w w1 : W) :
  h (isRestricted proxy) w = (Returned true, w1) →
  run h (blaze.begin proxy) w
    = Outcome (Thrown (invalid_argument "Invalid access to restricted element")) w1
        [Event (isRestricted proxy) (Returned true)]
  ∧ run h (blaze.end_ proxy) w
    = Outcome (Thrown (invalid_argument "Invalid access to restricted element")) w1
        [Event (isRestricted proxy) (Returned true)]
  ∧ run h (blaze.cbegin proxy) w = forwarded h m_cbegin proxy w
  ∧ run h (blaze.cend proxy) w = forwarded h m_cend proxy w
  ∧ run h (blaze.size proxy) w = forwarded h m_size proxy w
  ∧ run h (blaze.capacity proxy) w = forwarded h m_capacity proxy w
  ∧ run h (blaze.nonZeros proxy) w = forwarded h m_nonZeros proxy w
  ∧ run h (blaze.reset proxy) w = forwarded h m_reset proxy w
  ∧ run h (blaze.clear proxy) w = forwarded h m_clear proxy w.
Proof.
  intros Hr.
  split; [exact (eq_trans (run_gated h m_begin proxy w eq_refl)
                   ltac:(rewrite Hr; reflexivity))|].
  split; [exact (eq_trans (run_gated h m_end proxy w eq_refl)
                   ltac:(rewrite Hr; reflexivity))|].
  repeat split.
Qed.

Lemma global_functions_and_the_gate_witness :
  value (run Sample.handle (@blaze.begin Sample.types Sample.locked) Sample.w0)
    = Thrown (invalid_argument "Invalid access to restricted element")
  ∧ value (run Sample.handle (@blaze.cbegin Sample.types Sample.locked) Sample.w0)
    = Returned (0, 0%N)
  ∧ Sample.vectors (world (run Sample.handle (@blaze.clear Sample.types Sample.locked) Sample.w0))
    = [{| Sample.elements := []; Sample.cap := 4 |}].
Proof.
  pose proof (global_functions_and_the_gate
                Sample.handle Sample.locked Sample.w0 Sample.w0 eq_refl)
    as (Hb & _ & Hcb & _ & _ & _ & _ & _ & Hcl).
  rewrite Hb, Hcb, Hcl. repeat split.
Defined.

(** ** Operations in sequence *)

Lemma member_transparent {T : VectorTypes} {W : Type}
    (h : handler W) (m : member) (this : PT) (v : VT) (w : W) :
  h (isRestricted this) w = (Returned false, w) →
  h (get this) w = (Returned v, w) →
  value (run h (invoke m this) w) = value (run h (direct m v) w)
  ∧ world (run h (invoke m this) w) = world (run h (direct m v) w).
Proof.
  intros Hr Hg. destruct (gated m) eqn:Hm.
  - rewrite (run_gated h m this w Hm), Hr. unfold forwarded. rewrite Hg.
    split; reflexivity.
  - rewrite (run_ungated h m this w Hm). unfold forwarded. rewrite Hg.
    split; reflexivity.
Qed.

(** X8.  An unrestricted proxy is transparent for operations in sequence.
    Let the predicate answer false and [get()] hand out the vector [v],
    both without changing the world, before the first operation and after
    it.  Then two operations made one after the other through the proxy end
    with the value or exception, and leave the world, of the same two
    operations made on [v] itself; when the first throws, the second is not
    made in either. *)
Theorem unrestricted_proxy_is_transparent_in_sequence {T : VectorTypes} {W : Type}
    (h : handler W) (m1 m2 : member) (this : PT) (v : VT) (w : W) :
  let w' := world (run h (direct m1 v) w) in
  h (isRestricted this) w = (Returned false, w) →
  h (get this) w = (Returned v, w) →
  h (isRestricted this) w' = (Returned false, w') →
  h (get this) w' = (Returned v, w') →
  let through := run h (invoke m1 this ≫= λ _, invoke m2 this) w in
  let directly := run h (direct m1 v ≫= λ _, direct m2 v) w in
  value through = value directly ∧ world through = world directly.
Proof.
  intros w' Hr Hg Hr' Hg' through directly. subst through directly.
  rewrite !run_bind.
  destruct (member_transparent h m1 this v w Hr Hg) as [Hv Hw].
  rewrite Hv, Hw. fold w'.
  destruct (value (run h (direct m1 v) w)) as [x|e]; [|split; reflexivity].
  cbn [value world].
  exact (member_transparent h m2 this v w' Hr' Hg').
Qed.

Lemma unrestricted_proxy_is_transparent_in_sequence_witness :
  value (run Sample.handle
           (invoke (@m_resize Sample.types 5%N true) Sample.open
              ≫= λ _, invoke (@m_size Sample.types) Sample.open) Sample.w0)
    = Returned 5%N
  ∧ Sample.vectors
      (world (run Sample.handle
                (invoke (@m_resize Sample.types 5%N true) Sample.open
                   ≫= λ _, invoke (@m_size Sample.types) Sample.open) Sample.w0))
    = [{| Sample.elements := [1; 2; 3; 0; 0]%Z; Sample.cap := 5 |}].
Proof.
  pose proof (unrestricted_proxy_is_transparent_in_sequence
                Sample.handle (@m_resize Sample.types 5%N true) (@m_size Sample.types)
                Sample.open 0 Sample.w0 eq_refl eq_refl eq_refl eq_refl) as [Hv Hw].
  cbv zeta in *. split.
  - etransitivity; [exact Hv|reflexivity].
  - etransitivity; [exact (f_equal Sample.vectors Hw)|reflexivity].
Defined.
